(** * Reminders: a shallow embedding of [Reminder.ts] and [RemindersHandler.ts]

    The two TypeScript classes are embedded as state-passing programs.  A
    method of a class is a computation over the fields of its receiver
    that either returns a value or throws; a throw keeps the state reached
    so far, as in JavaScript.

    JavaScript numbers that stand for positions are embedded as [Z]
    (integer-valued positions), strings as [string], arrays as [list]. *)

From Stdlib Require Import ZArith Lia Ascii String.
From stdpp Require Import base option list strings sorting.

Local Open Scope Z_scope.

(** ** Completions and the method monad *)

(** What a [throw] carries: [new Error(msg)] written in the sources, or the
    [TypeError] the runtime raises when a property of [undefined] is read,
    written or called. *)
Inductive JsExn : Type :=
  | JsError (msg : string)
  | TypeError.

Inductive Completion (A : Type) : Type :=
  | Return (a : A)
  | Throw (e : JsExn).
Arguments Return {A} a.
Arguments Throw {A} e.

(** A method over receiver state [S]. *)
Definition M (S A : Type) : Type := S → Completion A * S.

Definition throw {S A} (e : JsExn) : M S A := λ s, (Throw e, s).
Definition get_state {S} : M S S := λ s, (Return s, s).
Definition put_state {S} (s : S) : M S unit := λ _, (Return tt, s).

#[global] Instance M_ret {S} : MRet (M S) := λ A a s, (Return a, s).
#[global] Instance M_bind {S} : MBind (M S) := λ A B f m s,
  match m s with
  | (Return a, s') => f a s'
  | (Throw e, s') => (Throw e, s')
  end.

(** ** Reminder.ts *)

Record Reminder : Type := mkReminder {
  _description : string;
  _tag : string;
  _isCompleted : bool
}.

#[global] Instance Reminder_eq_dec : EqDecision Reminder.
Proof. solve_decision. Defined.

Module ReminderClass.

(** [constructor(description, tag)] *)
Definition constructor (description tag : string) : Reminder :=
  {| _description := description; _tag := tag; _isCompleted := false |}.

(** [get description()] *)
Definition description : M Reminder string :=
  this ← get_state; mret (_description this).

(** [set description(description)]; [!description] holds of a string
    exactly when it is the empty string. *)
Definition set_description (description : string) : M Reminder unit :=
  if decide (description = ""%string)
  then throw (JsError "Do not input an empty description")
  else this ← get_state;
       put_state {| _description := description;
                    _tag := _tag this;
                    _isCompleted := _isCompleted this |}.

(** [get tag()] *)
Definition tag : M Reminder string :=
  this ← get_state; mret (_tag this).

(** [set tag(tag)] *)
Definition set_tag (tag : string) : M Reminder unit :=
  if decide (tag = ""%string)
  then throw (JsError "Do not input an empty tag")
  else this ← get_state;
       put_state {| _description := _description this;
                    _tag := tag;
                    _isCompleted := _isCompleted this |}.

(** [get isCompleted()] *)
Definition isCompleted : M Reminder bool :=
  this ← get_state; mret (_isCompleted this).

(** [toggleCompletion()] *)
Definition toggleCompletion : M Reminder unit :=
  this ← get_state;
  if negb (_isCompleted this)
  then put_state {| _description := _description this;
                    _tag := _tag this;
                    _isCompleted := true |}
  else put_state {| _description := _description this;
                    _tag := _tag this;
                    _isCompleted := false |}.

End ReminderClass.

(** ** Arrays and plain objects of the runtime *)

(** [a[i]] for an array [a] and an integer-valued number [i]: [undefined]
    (here [None]) outside [0 .. a.length - 1], negative offsets included. *)
Definition array_get {A} (a : list A) (i : Z) : option A :=
  if i <? 0 then None else a !! Z.to_nat i.

(** [a.forEach(f)] where the callback may throw. *)
Fixpoint forEach {S A} (f : A → M S unit) (a : list A) : M S unit :=
  match a with
  | [] => mret tt
  | x :: a' => f x ;; forEach f a'
  end.

Module JsObject.

(** An object written [{}]: its own properties in creation order.  Its
    prototype is [Object.prototype]. *)
Definition t (V : Type) : Type := list (string * V).

Definition empty {V} : t V := [].

(** Names of the properties every [{}] inherits from [Object.prototype]
    (ECMA-262, 20.1.3 and B.2.2); none of them holds an array. *)
Definition Object_prototype_keys : list string :=
  [ "constructor"; "hasOwnProperty"; "isPrototypeOf";
    "propertyIsEnumerable"; "toLocaleString"; "toString"; "valueOf";
    "__proto__"; "__defineGetter__"; "__defineSetter__";
    "__lookupGetter__"; "__lookupSetter__" ]%string.

Fixpoint get_own {V} (k : string) (o : t V) : option V :=
  match o with
  | [] => None
  | (k', v) :: o' => if decide (k' = k) then Some v else get_own k o'
  end.

(** [k in o]: own properties first, then the prototype chain. *)
Definition has_property {V} (k : string) (o : t V) : bool :=
  bool_decide (is_Some (get_own k o))
  || bool_decide (k ∈ Object_prototype_keys).

(** [o[k] = v] for a name [k] that is not yet a property of [o]: a new
    own property, created last. *)
Definition define {V} (k : string) (v : V) (o : t V) : t V := o ++ [(k, v)].

(** In-place change of the value held by the own property [k]. *)
Definition update {V} (k : string) (f : V → V) (o : t V) : t V :=
  (λ kv, if decide (kv.1 = k) then (kv.1, f kv.2) else kv) <$> o.

Definition digit_value (c : ascii) : option N :=
  let n := N_of_ascii c in
  if ((48 <=? n) && (n <=? 57))%N then Some (n - 48)%N else None.

Fixpoint digits_value (acc : N) (s : string) : option N :=
  match s with
  | EmptyString => Some acc
  | String c s' =>
      match digit_value c with
      | Some d => digits_value (10 * acc + d)%N s'
      | None => None
      end
  end.

(** A property name is an array index when it is the canonical decimal
    form of an integer in [0 .. 2^32 - 2] (ECMA-262, 6.1.7). *)
Definition array_index (k : string) : option N :=
  match k with
  | EmptyString => None
  | String c s' =>
      if decide (c = "0"%char ∧ s' ≠ EmptyString) then None
      else match digits_value 0 k with
           | Some n => if (n <=? 4294967294)%N then Some n else None
           | None => None
           end
  end.

Definition index_le (a b : N * string) : Prop := (a.1 ≤ b.1)%N.

#[global] Instance index_le_dec a b : Decision (index_le a b).
Proof. unfold index_le. apply _. Defined.

(** [Object.keys(o)], the order in which a [for .. in] or
    [Object.entries] walks [o] (ECMA-262, 10.1.11): the array indices in
    ascending numeric order, then the other names in creation order. *)
Definition keys {V} (o : t V) : list string :=
  (merge_sort index_le
     (omap (λ k, (λ n, (n, k)) <$> array_index k) (o.*1))).*2
  ++ filter (λ k, array_index k = None) (o.*1).

End JsObject.

(** ** RemindersHandler.ts *)

(** The field [_reminders] holds an array once the constructor has run;
    [None] stands for a field that holds [undefined]. *)
Record RemindersHandler : Type := mkHandler {
  _reminders : option (list Reminder)
}.

(** The handler together with what [Logger.log] has written so far. *)
Record World : Type := mkWorld {
  handler : RemindersHandler;
  logged : list string
}.

Abbreviation RemindersGroupingByTag := (JsObject.t (list Reminder)).

Module Logger.
(** Modelled from the spec: [./util/ReminderLogger] is not part of the
    sources at hand.  The logging collaborator emits an informational
    notice and has no effect on returned data: [log] records the
    message and touches nothing else. *)
Definition log (msg : string) : M World unit := λ w,
  (Return tt, {| handler := handler w; logged := logged w ++ [msg] |}).
End Logger.

(** [this._reminders.<member>]: reading a member of [undefined] throws. *)
Definition this_reminders : M World (list Reminder) :=
  w ← get_state;
  match _reminders (handler w) with
  | Some rs => mret rs
  | None => throw TypeError
  end.

Definition set_this_reminders (rs : list Reminder) : M World unit :=
  w ← get_state;
  put_state {| handler := {| _reminders := Some rs |}; logged := logged w |}.

(** [this._reminders[i].m(..)] for a method [m] of [Reminder]: the element
    is an object held by reference, so what [m] does to it is seen in the
    array; a member access on [undefined] throws. *)
Definition on_element {A} (i : Z) (m : M Reminder A) : M World A :=
  rs ← this_reminders;
  match array_get rs i with
  | None => throw TypeError
  | Some r =>
      match m r with
      | (Return a, r') => set_this_reminders (<[Z.to_nat i := r']> rs) ;; mret a
      | (Throw e, r') => set_this_reminders (<[Z.to_nat i := r']> rs) ;; throw e
      end
  end.

(** [constructor()] *)
Definition constructor : World :=
  {| handler := {| _reminders := Some [] |}; logged := [] |}.

(** [get reminders()]; [!this._reminders] holds exactly when the field
    holds [undefined], an array being truthy even when empty. *)
Definition reminders : M World (list Reminder) :=
  w ← get_state;
  match _reminders (handler w) with
  | None => throw (JsError "You have no reminders")
  | Some rs => mret rs
  end.

(** [addReminder(description, tag)] *)
Definition addReminder (description tag : string) : M World unit :=
  rs ← this_reminders;
  set_this_reminders (rs ++ [ReminderClass.constructor description tag]).

(** [size()] *)
Definition size : M World Z :=
  rs ← this_reminders; mret (Z.of_nat (length rs)).

(** [isIndexValid(index)] *)
Definition isIndexValid (index : Z) : M World bool :=
  n ← size;
  if n =? 0 then mret false
  else
    n' ← size;
    if (index <? 0) || (index + 1 >? n') then mret false
    else mret true.

(** [getReminder(index)]; the value read from the array may be
    [undefined]. *)
Definition getReminder (index : Z) : M World (option Reminder) :=
  valid ← isIndexValid index;
  if negb valid then throw (JsError "This index is not valid")
  else rs ← this_reminders; mret (array_get rs (index - 1)).

(** [modifyReminder(index, description)] *)
Definition modifyReminder (index : Z) (description : string) : M World unit :=
  on_element (index - 1) (ReminderClass.set_description description).

(** [toggleCompletion(index)] *)
Definition toggleCompletion (index : Z) : M World unit :=
  on_element (index - 1) ReminderClass.toggleCompletion.

(** The callback of [groupByTag], over the local object [groupings]. *)
Definition groupByTag_callback (reminder : Reminder)
  : M RemindersGroupingByTag unit :=
  groupings ← get_state;
  if JsObject.has_property (_tag reminder) groupings then
    match JsObject.get_own (_tag reminder) groupings with
    | Some _ =>
        put_state (JsObject.update (_tag reminder) (λ g, g ++ [reminder])
                     groupings)
    | None => throw TypeError
    end
  else put_state (JsObject.define (_tag reminder) [reminder] groupings).

(** [groupByTag()] *)
Definition groupByTag : M World RemindersGroupingByTag :=
  rs ← this_reminders;
  match forEach groupByTag_callback rs JsObject.empty with
  | (Return _, groupings) => mret groupings
  | (Throw e, _) => throw e
  end.

(** *** Search

    [String.prototype.toLowerCase] and the [fuzzy-search] package are
    supplied from outside the sources: [new FuzzySearch(haystack)
    .search(needle)] is a function of the haystack and the needle. *)
Section SearchMethods.

Variable toLowerCase : string → string.
Variable FuzzySearch_search : list string → string → list string.

(** [searchTags(keyword)] *)
Definition searchTags (keyword : string) : M World (list Reminder) :=
  rs ← this_reminders;
  mret (filter (λ reminder,
                  toLowerCase (_tag reminder) = toLowerCase keyword) rs).

(** [searchDescriptions(keyword)] *)
Definition searchDescriptions (keyword : string) : M World (list Reminder) :=
  Logger.log
    "Could not find based on keyword, now searching based on description" ;;
  all ← reminders;
  let reminderDesc := _description <$> all in
  let result := FuzzySearch_search reminderDesc keyword in
  rs ← this_reminders;
  mret (filter (λ reminder, _description reminder ∈ result) rs).

(** [search(keyword)] *)
Definition search (keyword : string) : M World (list Reminder) :=
  tagResults ← searchTags keyword;
  if Z.of_nat (length tagResults) =? 0
  then searchDescriptions keyword
  else mret tagResults.

(** *** Histories of a handler

    What a client can do with a handler: call its public members, and
    call the members of a [Reminder] it was handed (addressed here by
    the offset at which the handler stores that reminder).  The array
    that [reminders] returns is the stored array itself; a client that
    pushes to it or pops from it directly is not among these calls. *)
Inductive Call : Type :=
  | CallReminders
  | CallAddReminder (description tag : string)
  | CallGetReminder (index : Z)
  | CallIsIndexValid (index : Z)
  | CallSize
  | CallModifyReminder (index : Z) (description : string)
  | CallToggleCompletion (index : Z)
  | CallSearch (keyword : string)
  | CallGroupByTag
  | CallSetDescription (offset : nat) (description : string)
  | CallSetTag (offset : nat) (tag : string)
  | CallToggle (offset : nat).

(** The state a call leaves behind, whether it returns or throws. *)
Definition after (c : Call) (w : World) : World :=
  match c with
  | CallReminders => (reminders w).2
  | CallAddReminder d t => (addReminder d t w).2
  | CallGetReminder i => (getReminder i w).2
  | CallIsIndexValid i => (isIndexValid i w).2
  | CallSize => (size w).2
  | CallModifyReminder i d => (modifyReminder i d w).2
  | CallToggleCompletion i => (toggleCompletion i w).2
  | CallSearch k => (search k w).2
  | CallGroupByTag => (groupByTag w).2
  | CallSetDescription o d =>
      (on_element (Z.of_nat o) (ReminderClass.set_description d) w).2
  | CallSetTag o t =>
      (on_element (Z.of_nat o) (ReminderClass.set_tag t) w).2
  | CallToggle o =>
      (on_element (Z.of_nat o) ReminderClass.toggleCompletion w).2
  end.

(** The states of a handler made by [constructor] and then only called. *)
Inductive reachable : World → Prop :=
  | reachable_constructor : reachable constructor
  | reachable_call c w : reachable w → reachable (after c w).

End SearchMethods.

(** ** Notions used to state the properties *)

(** A collection: a handler whose field holds the array [rs]. *)
Definition collection (rs : list Reminder) (out : list string) : World :=
  {| handler := {| _reminders := Some rs |}; logged := out |}.

(** The reminders of [rs] that carry the tag [t], in the order of [rs]. *)
Definition carrying (t : string) (rs : list Reminder) : list Reminder :=
  filter (λ r, _tag r = t) rs.

(** The distinct values of [l], each at the place of its first
    occurrence. *)
Fixpoint first_occurrences (l : list string) : list string :=
  match l with
  | [] => []
  | x :: l' => x :: filter (λ y, y ≠ x) (first_occurrences l')
  end.

(** A stand-in for [toLowerCase] on ASCII text, used in examples only. *)
Fixpoint ascii_toLowerCase (s : string) : string :=
  match s with
  | EmptyString => EmptyString
  | String c s' =>
      let n := N_of_ascii c in
      String (if ((65 <=? n) && (n <=? 90))%N then ascii_of_N (n + 32) else c)
             (ascii_toLowerCase s')
  end.

Fixpoint starts_with (needle s : string) : bool :=
  match needle, s with
  | EmptyString, _ => true
  | String a needle', String b s' =>
      bool_decide (a = b) && starts_with needle' s'
  | String _ _, EmptyString => false
  end.

Fixpoint contains (needle s : string) : bool :=
  starts_with needle s
  || match s with
     | EmptyString => false
     | String _ s' => contains needle s'
     end.

(** A stand-in for the fuzzy matcher, used in examples only: the
    candidates that contain the needle, last candidate first. *)
Definition substring_search (haystack : list string) (needle : string)
  : list string :=
  reverse (filter (λ c, contains needle c = true) haystack).

(** The pure counterpart of [groupByTag_callback] on tags that are not
    inherited names, used to reason about the loop. *)
Definition group_step (groupings : RemindersGroupingByTag) (reminder : Reminder)
  : RemindersGroupingByTag :=
  match JsObject.get_own (_tag reminder) groupings with
  | Some _ => JsObject.update (_tag reminder) (λ g, g ++ [reminder]) groupings
  | None => JsObject.define (_tag reminder) [reminder] groupings
  end.

(** Ascending order of array indices among property names. *)
Definition index_ascending (a b : string) : Prop :=
  match JsObject.array_index a, JsObject.array_index b with
  | Some m, Some n => (m ≤ n)%N
  | _, _ => False
  end.

(** A reminder whose description and tag are both non-empty. *)
Definition well_formed (r : Reminder) : Prop :=
  _description r ≠ ""%string ∧ _tag r ≠ ""%string.

(** The calls that are members of [RemindersHandler], as opposed to the
    members of a [Reminder] a client was handed. *)
Definition handler_member (c : Call) : bool :=
  match c with
  | CallSetDescription _ _ | CallSetTag _ _ | CallToggle _ => false
  | _ => true
  end.

(** The state after a sequence of calls, first call first. *)
Definition run (toLowerCase : string → string)
    (FuzzySearch_search : list string → string → list string)
    (calls : list Call) (w : World) : World :=
  foldl (λ w c, after toLowerCase FuzzySearch_search c w) w calls.

(** The arguments of the [addReminder] calls of a sequence, in call
    order. *)
Definition added (calls : list Call) : list (string * string) :=
  omap (λ c, match c with
             | CallAddReminder d t => Some (d, t)
             | _ => None
             end) calls.

(** * Properties *)

(** ** Running the members on a collection *)

Lemma this_reminders_collection rs out :
  this_reminders (collection rs out) = (Return rs, collection rs out).
Proof. reflexivity. Qed.

Lemma size_collection rs out :
  size (collection rs out) = (Return (Z.of_nat (length rs)), collection rs out).
Proof. reflexivity. Qed.

Lemma addReminder_collection rs out d t :
  addReminder d t (collection rs out)
  = (Return tt, collection (rs ++ [ReminderClass.constructor d t]) out).
Proof. reflexivity. Qed.

(** What [isIndexValid] computes: the test of a 0-based offset. *)
Lemma isIndexValid_collection rs out p :
  isIndexValid p (collection rs out)
  = (Return (bool_decide (0 ≤ p < Z.of_nat (length rs))), collection rs out).
Proof.
  unfold isIndexValid, mbind, M_bind. rewrite size_collection.
  destruct (Z.eqb_spec (Z.of_nat (length rs)) 0) as [Hz|Hz].
  { rewrite bool_decide_eq_false_2; [reflexivity | lia]. }
  rewrite size_collection.
  destruct (Z.ltb_spec p 0) as [Hneg|Hneg]; cbn [orb].
  { rewrite bool_decide_eq_false_2; [reflexivity | lia]. }
  destruct (Z.gtb_spec (p + 1) (Z.of_nat (length rs))) as [Hhi|Hhi].
  - rewrite bool_decide_eq_false_2; [reflexivity | lia].
  - rewrite bool_decide_eq_true_2; [reflexivity | lia].
Qed.

Lemma getReminder_collection rs out p :
  getReminder p (collection rs out)
  = (if bool_decide (0 ≤ p < Z.of_nat (length rs))
     then Return (array_get rs (p - 1))
     else Throw (JsError "This index is not valid"),
     collection rs out).
Proof.
  unfold getReminder, mbind, M_bind. rewrite isIndexValid_collection.
  by destruct (bool_decide _).
Qed.

Lemma array_get_Some {A} (a : list A) (i : Z) x :
  array_get a i = Some x ↔ 0 ≤ i ∧ a !! Z.to_nat i = Some x.
Proof.
  unfold array_get. destruct (Z.ltb_spec i 0).
  - split; [done | lia].
  - split; [by intros | by intros [_ ?]].
Qed.

Lemma array_get_None {A} (a : list A) (i : Z) :
  array_get a i = None ↔ i < 0 ∨ Z.of_nat (length a) ≤ i.
Proof.
  unfold array_get. destruct (Z.ltb_spec i 0).
  - naive_solver.
  - rewrite lookup_ge_None. split; [right|intros [|]]; lia.
Qed.

Lemma array_get_of_nat {A} (a : list A) (n : nat) :
  array_get a (Z.of_nat n) = a !! n.
Proof.
  unfold array_get. destruct (Z.ltb_spec (Z.of_nat n) 0); [lia|].
  by rewrite Nat2Z.id.
Qed.

(** [on_element] in the three cases of its body. *)
Lemma on_element_undefined {A} (m : M Reminder A) rs out i :
  array_get rs i = None →
  on_element i m (collection rs out) = (Throw TypeError, collection rs out).
Proof.
  intros H. unfold on_element, mbind, M_bind.
  rewrite this_reminders_collection, H. reflexivity.
Qed.

Lemma on_element_defined {A} (m : M Reminder A) rs out i r :
  array_get rs i = Some r →
  on_element i m (collection rs out)
  = ((m r).1, collection (<[Z.to_nat i := (m r).2]> rs) out).
Proof.
  intros H. unfold on_element, mbind, M_bind.
  rewrite this_reminders_collection, H.
  by destruct (m r) as [[a|e] r'].
Qed.

(** Every state is a collection or has lost its array. *)
Lemma World_cases (w : World) :
  (∃ rs, w = collection rs (logged w)) ∨ _reminders (handler w) = None.
Proof.
  destruct w as [[[rs|]] out]; [left; by exists rs | by right].
Qed.

(** ** Reminder.ts: the validating setters *)

Lemma Reminder_toggleCompletion_run (r : Reminder) :
  ReminderClass.toggleCompletion r
  = (Return tt, mkReminder (_description r) (_tag r) (negb (_isCompleted r))).
Proof. destruct r as [d t []]; reflexivity. Qed.

(** C7. Setting the description or the tag of a reminder to the empty
    string throws the validation error and leaves the reminder as it was;
    setting it to any non-empty string returns, and the getter then
    returns the new value. *)
Theorem setters_validate (r : Reminder) (v : string) :
  (v = ""%string →
     ReminderClass.set_description v r
       = (Throw (JsError "Do not input an empty description"), r)
     ∧ ReminderClass.set_tag v r
       = (Throw (JsError "Do not input an empty tag"), r))
  ∧ (v ≠ ""%string →
     (∃ r', ReminderClass.set_description v r = (Return tt, r')
            ∧ ReminderClass.description r' = (Return v, r'))
     ∧ (∃ r', ReminderClass.set_tag v r = (Return tt, r')
              ∧ ReminderClass.tag r' = (Return v, r'))).
Proof.
  unfold ReminderClass.set_description, ReminderClass.set_tag.
  split; intros Hv.
  - subst v. by split.
  - destruct (decide (v = ""%string)) as [|_]; [done|].
    split; eexists; (split; [reflexivity|]); reflexivity.
Qed.

Lemma setters_validate_witness :
  let r := ReminderClass.constructor "buy milk" "shopping" in
  (ReminderClass.set_description "" r
     = (Throw (JsError "Do not input an empty description"), r)
   ∧ ReminderClass.set_tag "" r
     = (Throw (JsError "Do not input an empty tag"), r))
  ∧ ((∃ r', ReminderClass.set_description "buy oat milk" r = (Return tt, r')
            ∧ ReminderClass.description r'
              = (Return "buy oat milk"%string, r'))
     ∧ (∃ r', ReminderClass.set_tag "buy oat milk" r = (Return tt, r')
              ∧ ReminderClass.tag r' = (Return "buy oat milk"%string, r'))).
Proof.
  intros r. split.
  - apply (setters_validate r ""). reflexivity.
  - apply (setters_validate r "buy oat milk"). discriminate.
Defined.

(** ** RemindersHandler.ts: positions *)

(** C1. On every non-empty collection [isIndexValid] rejects the position
    [size()] of the last reminder and accepts the position [0]: it tests
    [0 <= index < size()], not [1 <= index <= size()]. *)
Theorem isIndexValid_tests_offsets (r : Reminder) (rs : list Reminder)
    (out : list string) :
  (isIndexValid (Z.of_nat (length (r :: rs))) (collection (r :: rs) out)).1
    = Return false
  ∧ (isIndexValid 0 (collection (r :: rs) out)).1 = Return true.
Proof.
  rewrite !isIndexValid_collection. cbn [fst]. split.
  - rewrite bool_decide_eq_false_2; [done | lia].
  - rewrite bool_decide_eq_true_2; [done | cbn [length]; lia].
Qed.

(** C2. After [addReminder] the size has grown by one, and [getReminder]
    at the new size throws "This index is not valid". *)
Theorem addReminder_then_getReminder_throws (rs : list Reminder)
    (out : list string) (d t : string) :
  let w' := (addReminder d t (collection rs out)).2 in
  (size w').1 = Return (Z.of_nat (length rs) + 1)
  ∧ (getReminder (Z.of_nat (length rs) + 1) w').1
    = Throw (JsError "This index is not valid").
Proof.
  rewrite addReminder_collection. cbn [snd].
  rewrite size_collection, getReminder_collection, length_app. cbn [fst length].
  split; [f_equal; lia|].
  rewrite bool_decide_eq_false_2; [done | lia].
Qed.

(** C4. On every non-empty collection position [0] passes
    [isIndexValid], and [getReminder(0)] returns [undefined]: no reminder
    is stored at offset [-1]. *)
Theorem getReminder_zero_undefined (r : Reminder) (rs : list Reminder)
    (out : list string) :
  (isIndexValid 0 (collection (r :: rs) out)).1 = Return true
  ∧ getReminder 0 (collection (r :: rs) out)
    = (Return None, collection (r :: rs) out).
Proof.
  rewrite isIndexValid_collection, getReminder_collection.
  rewrite bool_decide_eq_true_2; [done | cbn [length]; lia].
Qed.

(** C8. On a collection whose last reminder is [r], position [size()]
    fails [isIndexValid], yet [toggleCompletion] at it returns and toggles
    [r]; position [0] passes [isIndexValid], yet [toggleCompletion] and
    [modifyReminder] at it throw a [TypeError]. *)
Theorem unchecked_mutation_disagrees_with_isIndexValid (rs : list Reminder)
    (r : Reminder) (out : list string) (d : string) :
  let w := collection (rs ++ [r]) out in
  let last := Z.of_nat (length (rs ++ [r])) in
  ((isIndexValid last w).1 = Return false
   ∧ toggleCompletion last w
     = (Return tt,
        collection
          (rs ++ [mkReminder (_description r) (_tag r) (negb (_isCompleted r))])
          out))
  ∧ ((isIndexValid 0 w).1 = Return true
     ∧ toggleCompletion 0 w = (Throw TypeError, w)
     ∧ modifyReminder 0 d w = (Throw TypeError, w)).
Proof.
  intros w last. subst w last.
  rewrite !isIndexValid_collection, length_app. cbn [fst length].
  split; [split | split; [|split]].
  - rewrite bool_decide_eq_false_2; [done | lia].
  - unfold toggleCompletion.
    assert (Z.of_nat (length rs + 1) - 1 = Z.of_nat (length rs)) as -> by lia.
    rewrite (on_element_defined _ _ _ _ r).
    + rewrite Nat2Z.id.
      assert (length rs = length rs + 0)%nat as Hlen by lia.
      rewrite Hlen at 1. rewrite insert_app_r.
      by rewrite Reminder_toggleCompletion_run.
    + rewrite array_get_of_nat. apply list_lookup_middle. done.
  - rewrite bool_decide_eq_true_2; [done | lia].
  - apply on_element_undefined, array_get_None. lia.
  - apply on_element_undefined, array_get_None. lia.
Qed.

(** ** RemindersHandler.ts: search *)

Lemma groupByTag_frame (w : World) : (groupByTag w).2 = w.
Proof.
  destruct w as [[[rs|]] out]; [|done].
  change (mkWorld (mkHandler (Some rs)) out) with (collection rs out).
  unfold groupByTag, mbind, M_bind. rewrite this_reminders_collection.
  destruct (forEach groupByTag_callback rs JsObject.empty) as [[u|e] g];
    reflexivity.
Qed.

Section SearchFacts.

Variable toLowerCase : string → string.
Variable FuzzySearch_search : list string → string → list string.

Lemma searchTags_collection rs out kw :
  searchTags toLowerCase kw (collection rs out)
  = (Return (filter (λ r, toLowerCase (_tag r) = toLowerCase kw) rs),
     collection rs out).
Proof. reflexivity. Qed.

Lemma searchDescriptions_collection rs out kw :
  searchDescriptions FuzzySearch_search kw (collection rs out)
  = (Return (filter (λ r, _description r
                          ∈ FuzzySearch_search (_description <$> rs) kw) rs),
     collection rs
       (out ++ ["Could not find based on keyword, now searching based on description"%string])).
Proof. reflexivity. Qed.

Lemma search_collection rs out kw :
  search toLowerCase FuzzySearch_search kw (collection rs out)
  = match filter (λ r, toLowerCase (_tag r) = toLowerCase kw) rs with
    | [] => searchDescriptions FuzzySearch_search kw (collection rs out)
    | r :: found => (Return (r :: found), collection rs out)
    end.
Proof.
  unfold search, mbind, M_bind. rewrite searchTags_collection.
  by destruct (filter _ rs).
Qed.

Lemma search_handler kw w :
  handler (search toLowerCase FuzzySearch_search kw w).2 = handler w.
Proof.
  destruct (World_cases w) as [[rs ->]|Hnone].
  - rewrite search_collection. destruct (filter _ rs); [|done].
    by rewrite searchDescriptions_collection.
  - destruct w as [[f] out]. cbn in Hnone. by subst f.
Qed.

End SearchFacts.

(** C3. [search] returns the reminders whose tag equals the keyword once
    both are lowered, whenever there is one; when there is none it returns
    the reminders whose description is in the collaborator's result. *)
Theorem search_exact_then_fuzzy (toLowerCase : string → string)
    (FuzzySearch_search : list string → string → list string)
    (rs : list Reminder) (out : list string) (keyword : string) :
  let exact r := toLowerCase (_tag r) = toLowerCase keyword in
  let found := (search toLowerCase FuzzySearch_search keyword
                  (collection rs out)).1 in
  (Exists exact rs → found = Return (filter exact rs))
  ∧ (¬ Exists exact rs →
     found = Return (filter (λ r, _description r
                      ∈ FuzzySearch_search (_description <$> rs) keyword) rs)).
Proof.
  intros exact found. subst found. rewrite search_collection.
  fold exact. split; intros Hcase.
  - destruct (filter exact rs) as [|r l] eqn:Hf; [|done].
    apply Exists_exists in Hcase as (r & Hin & Hr).
    by destruct (filter_nil_not_elem_of exact rs r).
  - destruct (filter exact rs) as [|r l] eqn:Hf; [done|].
    destruct Hcase. apply Exists_exists. exists r.
    apply and_comm, (list_elem_of_filter exact). rewrite Hf. left.
Qed.

(** The two reminders of the specification's search scenarios. *)
Lemma search_exact_then_fuzzy_witness :
  let w := collection [ReminderClass.constructor "buy milk" "shopping";
                       ReminderClass.constructor "buy shoes" "errand"] [] in
  (search ascii_toLowerCase substring_search "Shopping" w).1
    = Return [ReminderClass.constructor "buy milk" "shopping"]
  ∧ (search ascii_toLowerCase substring_search "buy" w).1
    = Return [ReminderClass.constructor "buy milk" "shopping";
              ReminderClass.constructor "buy shoes" "errand"].
Proof.
  split.
  - apply (search_exact_then_fuzzy ascii_toLowerCase substring_search
             [ReminderClass.constructor "buy milk" "shopping";
              ReminderClass.constructor "buy shoes" "errand"] [] "Shopping").
    apply Exists_cons_hd. reflexivity.
  - apply (search_exact_then_fuzzy ascii_toLowerCase substring_search
             [ReminderClass.constructor "buy milk" "shopping";
              ReminderClass.constructor "buy shoes" "errand"] [] "buy").
    intros H. apply Exists_cons in H as [H|H]; [discriminate H|].
    apply Exists_cons in H as [H|H]; [discriminate H|].
    apply Exists_nil in H. exact H.
Defined.

(** C6. Both stages of [search] filter the stored array itself, so what
    [search] returns keeps the order of the collection: the tag stage
    keeps exactly the reminders whose lowered tag is the lowered keyword,
    the description stage keeps exactly the reminders whose description
    is a member of the collaborator's result, [search] returns the first
    of the two unless it is empty, and a collaborator that returns the
    same matches in another order gives the same answer. *)
Theorem search_keeps_collection_order (toLowerCase : string → string)
    (FuzzySearch_search : list string → string → list string)
    (rs : list Reminder) (out : list string) (keyword : string) :
  let w := collection rs out in
  let exact r := toLowerCase (_tag r) = toLowerCase keyword in
  let matched r :=
    _description r ∈ FuzzySearch_search (_description <$> rs) keyword in
  let found := (search toLowerCase FuzzySearch_search keyword w).1 in
  ((searchTags toLowerCase keyword w).1 = Return (filter exact rs)
   ∧ (searchDescriptions FuzzySearch_search keyword w).1
     = Return (filter matched rs)
   ∧ found = Return match filter exact rs with
                    | [] => filter matched rs
                    | _ :: _ => filter exact rs
                    end)
  ∧ (filter exact rs `sublist_of` rs
     ∧ filter matched rs `sublist_of` rs
     ∧ ∃ l, found = Return l ∧ l `sublist_of` rs)
  ∧ (∀ other : list string → string → list string,
       other (_description <$> rs) keyword
         ≡ₚ FuzzySearch_search (_description <$> rs) keyword →
       (searchDescriptions other keyword w).1
         = (searchDescriptions FuzzySearch_search keyword w).1
       ∧ (search toLowerCase other keyword w).1 = found).
Proof.
  intros w exact matched found. subst w found.
  rewrite search_collection, searchTags_collection,
    searchDescriptions_collection.
  fold exact. fold matched. cbn [fst].
  split; [|split].
  - split; [done|]. split; [done|]. by destruct (filter exact rs).
  - split; [apply sublist_filter|]. split; [apply sublist_filter|].
    destruct (filter exact rs) as [|r l] eqn:Hf.
    + eexists. split; [done|]. apply sublist_filter.
    + eexists. split; [done|]. rewrite <- Hf. apply sublist_filter.
  - intros other Hperm.
    assert (filter
              (λ r, _description r ∈ other (_description <$> rs) keyword) rs
            = filter matched rs) as Hsame.
    { apply list_filter_iff. intros x. unfold matched. by rewrite Hperm. }
    rewrite search_collection, searchDescriptions_collection. fold exact.
    cbn [fst]. rewrite Hsame. split; [done|].
    by destruct (filter exact rs).
Qed.

Lemma search_keeps_collection_order_witness :
  let rs := [ReminderClass.constructor "buy milk" "shopping";
             ReminderClass.constructor "buy shoes" "errand"] in
  let w := collection rs [] in
  let backwards h n := reverse (substring_search h n) in
  (search ascii_toLowerCase substring_search "buy" w).1 = Return rs
  ∧ (searchDescriptions backwards "buy" w).1
    = (searchDescriptions substring_search "buy" w).1
  ∧ (search ascii_toLowerCase backwards "buy" w).1
    = (search ascii_toLowerCase substring_search "buy" w).1.
Proof.
  intros rs w backwards.
  destruct (search_keeps_collection_order ascii_toLowerCase substring_search
              rs [] "buy") as ((_ & _ & Hfound) & _ & Hother).
  split; [exact Hfound|].
  apply (Hother backwards). apply reverse_Permutation.
Defined.

(** C10. [search] and [groupByTag] leave the handler as it was: the same
    reminders in the same order, each with the same description, tag and
    completion flag. *)
Theorem queries_leave_collection (toLowerCase : string → string)
    (FuzzySearch_search : list string → string → list string)
    (keyword : string) (w : World) :
  handler (search toLowerCase FuzzySearch_search keyword w).2 = handler w
  ∧ (groupByTag w).2 = w.
Proof.
  split; [apply search_handler | apply groupByTag_frame].
Qed.

(** ** RemindersHandler.ts: the guard of [reminders] *)

Section Histories.

Variable toLowerCase : string → string.
Variable FuzzySearch_search : list string → string → list string.

Lemma on_element_collection {A} (m : M Reminder A) rs out i :
  ∃ rs', (on_element i m (collection rs out)).2 = collection rs' out.
Proof.
  destruct (array_get rs i) as [r|] eqn:Hget.
  - rewrite (on_element_defined _ _ _ _ r Hget). by eexists.
  - rewrite (on_element_undefined _ _ _ _ Hget). by eexists.
Qed.

(** No call takes the array away from the handler. *)
Lemma after_collection (c : Call) rs out :
  ∃ rs' out',
    after toLowerCase FuzzySearch_search c (collection rs out)
    = collection rs' out'.
Proof.
  destruct c; cbn [after].
  - by exists rs, out.
  - rewrite addReminder_collection. by eexists _, _.
  - rewrite getReminder_collection. by exists rs, out.
  - rewrite isIndexValid_collection. by exists rs, out.
  - by exists rs, out.
  - destruct (on_element_collection
                (ReminderClass.set_description description) rs out (index - 1))
      as [rs' Hrs']. by exists rs', out.
  - destruct (on_element_collection
                ReminderClass.toggleCompletion rs out (index - 1))
      as [rs' Hrs']. by exists rs', out.
  - rewrite search_collection. destruct (filter _ rs).
    + rewrite searchDescriptions_collection. by eexists _, _.
    + by exists rs, out.
  - rewrite groupByTag_frame. by exists rs, out.
  - destruct (on_element_collection
                (ReminderClass.set_description description) rs out
                (Z.of_nat offset)) as [rs' Hrs']. by exists rs', out.
  - destruct (on_element_collection
                (ReminderClass.set_tag tag) rs out (Z.of_nat offset))
      as [rs' Hrs']. by exists rs', out.
  - destruct (on_element_collection
                ReminderClass.toggleCompletion rs out (Z.of_nat offset))
      as [rs' Hrs']. by exists rs', out.
Qed.

Lemma reachable_collection (w : World) :
  reachable toLowerCase FuzzySearch_search w →
  ∃ rs out, w = collection rs out.
Proof.
  induction 1 as [|c w _ (rs & out & ->)].
  - by exists [], [].
  - apply after_collection.
Qed.

End Histories.

(** C9. In every state of a handler made by the constructor and then only
    called, [reminders] returns the stored array and does not throw; on the
    fresh handler that array is empty. *)
Theorem reminders_guard_unreachable (toLowerCase : string → string)
    (FuzzySearch_search : list string → string → list string) (w : World) :
  reachable toLowerCase FuzzySearch_search w →
  (∃ rs, _reminders (handler w) = Some rs ∧ reminders w = (Return rs, w))
  ∧ reminders constructor = (Return [], constructor).
Proof.
  intros Hreach. split; [|reflexivity].
  destruct (reachable_collection _ _ _ Hreach) as (rs & out & ->).
  by exists rs.
Qed.

Lemma reminders_guard_unreachable_witness :
  let w := after ascii_toLowerCase substring_search
             (CallAddReminder "buy milk" "shopping") constructor in
  (∃ rs, _reminders (handler w) = Some rs ∧ reminders w = (Return rs, w))
  ∧ reminders constructor = (Return [], constructor).
Proof.
  apply (reminders_guard_unreachable ascii_toLowerCase substring_search).
  apply reachable_call, reachable_constructor.
Defined.

(** ** RemindersHandler.ts: grouping by tag *)

Section ObjectFacts.

Context {V : Type}.
Implicit Types (o : JsObject.t V) (k t : string).

Lemma get_own_update o k t (f : V → V) :
  JsObject.get_own t (JsObject.update k f o)
  = if decide (t = k) then f <$> JsObject.get_own t o
    else JsObject.get_own t o.
Proof.
  induction o as [|[k' v] o IH].
  { cbn. by destruct (decide (t = k)). }
  change (JsObject.update k f ((k', v) :: o))
    with ((if decide (k' = k) then (k', f v) else (k', v))
            :: JsObject.update k f o).
  destruct (decide (k' = k)) as [->|Hk]; cbn [JsObject.get_own].
  - destruct (decide (k = t)) as [->|Hkt].
    + by rewrite decide_True.
    + rewrite IH. destruct (decide (t = k)); [by subst|done].
  - destruct (decide (k' = t)) as [->|Hkt].
    + by rewrite decide_False.
    + apply IH.
Qed.

Lemma get_own_define o k t (v : V) :
  JsObject.get_own t (JsObject.define k v o)
  = match JsObject.get_own t o with
    | Some x => Some x
    | None => if decide (k = t) then Some v else None
    end.
Proof.
  unfold JsObject.define. induction o as [|[k' x] o IH]; cbn; [done|].
  by destruct (decide (k' = t)).
Qed.

Lemma names_update o k (f : V → V) : (JsObject.update k f o).*1 = o.*1.
Proof.
  unfold JsObject.update. rewrite <- list_fmap_compose.
  apply list_fmap_ext. intros i [k' v] _. cbn. by destruct (decide (k' = k)).
Qed.

Lemma names_define o k (v : V) : (JsObject.define k v o).*1 = o.*1 ++ [k].
Proof. unfold JsObject.define. by rewrite fmap_app. Qed.

End ObjectFacts.

Lemma elem_of_first_occurrences (l : list string) (x : string) :
  x ∈ first_occurrences l ↔ x ∈ l.
Proof.
  induction l as [|y l IH]; cbn; [done|].
  rewrite !elem_of_cons, list_elem_of_filter, IH.
  destruct (decide (x = y)); tauto.
Qed.

Lemma NoDup_first_occurrences (l : list string) : NoDup (first_occurrences l).
Proof.
  induction l as [|y l IH]; cbn; [constructor|].
  constructor; [|by apply NoDup_filter].
  rewrite list_elem_of_filter. intros [Hne _]. by apply Hne.
Qed.

Lemma first_occurrences_snoc (l : list string) (x : string) :
  first_occurrences (l ++ [x])
  = if decide (x ∈ l) then first_occurrences l else first_occurrences l ++ [x].
Proof.
  induction l as [|y l IH]; cbn.
  - rewrite decide_False; [done | by intros ?%elem_of_nil].
  - rewrite IH. destruct (decide (x = y)) as [->|Hxy].
    + rewrite (decide_True (P := y ∈ y :: l)) by left.
      destruct (decide (y ∈ l)); [done|].
      rewrite filter_app, filter_cons_False, filter_nil by (intros Hne; by apply Hne).
      by rewrite app_nil_r.
    + destruct (decide (x ∈ l)) as [Hin|Hin].
      * rewrite decide_True; [done | by right].
      * rewrite decide_False by (rewrite elem_of_cons; tauto).
        by rewrite filter_app, filter_cons_True, filter_nil.
Qed.

(** On a tag that is not an inherited name the callback returns, and does
    what [group_step] says. *)
Lemma groupByTag_callback_run (r : Reminder) (o : RemindersGroupingByTag) :
  _tag r ∉ JsObject.Object_prototype_keys →
  groupByTag_callback r o = (Return tt, group_step o r).
Proof.
  intros Hproto.
  unfold groupByTag_callback, group_step, JsObject.has_property,
    mbind, M_bind, get_state.
  rewrite (bool_decide_eq_false_2 _ Hproto), orb_false_r.
  destruct (JsObject.get_own (_tag r) o) as [g|] eqn:Hown.
  - rewrite bool_decide_eq_true_2 by by eexists. reflexivity.
  - rewrite bool_decide_eq_false_2 by by intros [? ?]. reflexivity.
Qed.

Lemma forEach_groupByTag_callback (rs : list Reminder)
    (o : RemindersGroupingByTag) :
  Forall (λ r, _tag r ∉ JsObject.Object_prototype_keys) rs →
  forEach groupByTag_callback rs o = (Return tt, foldl group_step o rs).
Proof.
  intros Hrs. revert o.
  induction Hrs as [|r rs Hr _ IH]; intros o; [reflexivity|].
  cbn [forEach foldl]. unfold mbind, M_bind.
  rewrite (groupByTag_callback_run r o Hr). apply IH.
Qed.

Lemma carrying_snoc (t : string) (rs : list Reminder) (r : Reminder) :
  carrying t (rs ++ [r])
  = carrying t rs ++ (if decide (_tag r = t) then [r] else []).
Proof.
  unfold carrying. by rewrite filter_app.
Qed.

Lemma carrying_nil (t : string) (rs : list Reminder) :
  t ∉ _tag <$> rs → carrying t rs = [].
Proof.
  intros Ht. unfold carrying. induction rs as [|r rs IH]; [done|].
  rewrite fmap_cons, not_elem_of_cons in Ht. destruct Ht as [Hne Hrs].
  rewrite filter_cons_False by done. by apply IH.
Qed.

(** What the loop of [groupByTag] has built after the reminders [rs]. *)
Lemma foldl_group_step (rs : list Reminder) :
  (foldl group_step JsObject.empty rs).*1 = first_occurrences (_tag <$> rs)
  ∧ ∀ t, JsObject.get_own t (foldl group_step JsObject.empty rs)
         = if decide (t ∈ _tag <$> rs) then Some (carrying t rs) else None.
Proof.
  induction rs as [|r rs [IHnames IHown]] using rev_ind.
  { split; [done|]. intros t. rewrite decide_False; [done|]. apply not_elem_of_nil. }
  rewrite foldl_app, fmap_app. cbn [foldl].
  change (_tag <$> [r]) with [_tag r]. rewrite first_occurrences_snoc.
  unfold group_step at 1 3. rewrite IHown.
  destruct (decide (_tag r ∈ _tag <$> rs)) as [Hseen|Hfresh].
  - split; [by rewrite names_update|].
    intros t. rewrite get_own_update, IHown, carrying_snoc.
    destruct (decide (t = _tag r)) as [->|Hne].
    + rewrite (decide_True (P := _tag r = _tag r)) by done.
      rewrite (decide_True (P := _tag r ∈ _tag <$> rs)) by done.
      rewrite decide_True; [done|by apply elem_of_app; left].
    + rewrite (decide_False (P := _tag r = t)) by done. rewrite app_nil_r.
      destruct (decide (t ∈ _tag <$> rs)) as [Hin|Hin].
      * rewrite decide_True; [done|by apply elem_of_app; left].
      * rewrite decide_False; [done|].
        rewrite elem_of_app, list_elem_of_singleton. tauto.
  - split; [by rewrite names_define, IHnames|].
    intros t. rewrite get_own_define, IHown, carrying_snoc.
    destruct (decide (t ∈ _tag <$> rs)) as [Hin|Hin].
    + rewrite (decide_True (P := t ∈ (_tag <$> rs) ++ [_tag r]))
        by (by apply elem_of_app; left).
      rewrite (decide_False (P := _tag r = t))
        by (intros Heq; apply Hfresh; by rewrite Heq).
      by rewrite app_nil_r.
    + destruct (decide (_tag r = t)) as [<-|Hne].
      * rewrite decide_True by (apply elem_of_app; right; left).
        by rewrite carrying_nil.
      * rewrite decide_False; [done|].
        rewrite elem_of_app, list_elem_of_singleton. intros [?|?]; [done|].
        by apply Hne.
Qed.

(** *** The order in which the groups are enumerated *)

#[local] Instance index_le_trans : Transitive JsObject.index_le.
Proof. intros a b c. unfold JsObject.index_le. lia. Qed.

#[local] Instance index_le_total : Total JsObject.index_le.
Proof. intros a b. unfold JsObject.index_le. lia. Qed.

Lemma indexed_names (l : list string) :
  (omap (λ k, (λ n, (n, k)) <$> JsObject.array_index k) l).*2
  = filter (λ k, is_Some (JsObject.array_index k)) l.
Proof.
  induction l as [|k l IH]; [done|].
  rewrite filter_cons. cbn [omap list_omap].
  destruct (JsObject.array_index k) as [n|] eqn:Hk.
  - rewrite decide_True by by eexists. cbn. f_equal. apply IH.
  - rewrite decide_False by by intros [? ?]. apply IH.
Qed.

Lemma indexed_names_sound (l : list string) :
  Forall (λ p, JsObject.array_index p.2 = Some p.1)
    (omap (λ k, (λ n, (n, k)) <$> JsObject.array_index k) l).
Proof.
  apply Forall_forall. intros [n k] Hin.
  apply list_elem_of_omap in Hin as (k' & _ & Hk').
  destruct (JsObject.array_index k') as [n'|] eqn:Hidx; [|done].
  cbn in Hk'. by simplify_eq.
Qed.

Lemma StronglySorted_names (l : list (N * string)) :
  Forall (λ p, JsObject.array_index p.2 = Some p.1) l →
  StronglySorted JsObject.index_le l →
  StronglySorted index_ascending l.*2.
Proof.
  intros Hsound Hsorted.
  induction Hsorted as [|p l Hsorted IH Hall]; [constructor|].
  apply Forall_cons in Hsound as [Hp Hl]. cbn. constructor; [by apply IH|].
  apply Forall_fmap, Forall_forall. intros q Hq. cbn.
  unfold index_ascending. rewrite Hp.
  rewrite Forall_forall in Hl. rewrite (Hl q Hq).
  rewrite Forall_forall in Hall. apply (Hall q Hq).
Qed.

(** [Object.keys]: indices first and ascending, then the other names in
    creation order. *)
Lemma keys_order {V} (o : JsObject.t V) :
  ∃ idx, JsObject.keys o
         = idx ++ filter (λ k, JsObject.array_index k = None) o.*1
    ∧ idx ≡ₚ filter (λ k, is_Some (JsObject.array_index k)) o.*1
    ∧ StronglySorted index_ascending idx.
Proof.
  eexists. split; [reflexivity|]. split.
  - rewrite merge_sort_Permutation. by rewrite indexed_names.
  - apply StronglySorted_names.
    + rewrite merge_sort_Permutation. apply indexed_names_sound.
    + apply (StronglySorted_merge_sort _).
Qed.

(** C5, as the specification words it, fails: with the tags ["2"] and
    ["1"] added in that order, the groups are enumerated ["1"] first. *)
Lemma groupByTag_order_counterexample :
  let rs := [ReminderClass.constructor "pay rent" "2";
             ReminderClass.constructor "buy milk" "1"] in
  ¬ ∃ g, (groupByTag (collection rs [])).1 = Return g
         ∧ (∀ t, t ∈ _tag <$> rs → JsObject.get_own t g = Some (carrying t rs))
         ∧ JsObject.keys g = first_occurrences (_tag <$> rs).
Proof.
  intros rs (g & Hg & _ & Hkeys).
  vm_compute in Hg. injection Hg as <-.
  vm_compute in Hkeys. discriminate Hkeys.
Qed.

(** C5. When no tag is a name inherited from [Object.prototype],
    [groupByTag] returns an object that holds, under each tag taken as it
    is written, exactly the reminders carrying that tag in insertion
    order, and nothing under any other name; its groups are enumerated
    with the tags that are array indices first, in ascending numeric
    order, and then the other tags in the order of their first reminder. *)
Theorem groupByTag_groups (rs : list Reminder) (out : list string) :
  Forall (λ r, _tag r ∉ JsObject.Object_prototype_keys) rs →
  ∃ g, groupByTag (collection rs out) = (Return g, collection rs out)
    ∧ (∀ t, JsObject.get_own t g
            = if decide (t ∈ _tag <$> rs) then Some (carrying t rs) else None)
    ∧ ∃ idx,
        JsObject.keys g
        = idx ++ filter (λ k, JsObject.array_index k = None)
                   (first_occurrences (_tag <$> rs))
        ∧ idx ≡ₚ filter (λ k, is_Some (JsObject.array_index k))
                   (first_occurrences (_tag <$> rs))
        ∧ StronglySorted index_ascending idx.
Proof.
  intros Hrs. exists (foldl group_step JsObject.empty rs).
  destruct (foldl_group_step rs) as [Hnames Hown].
  split; [|split; [exact Hown|]].
  - unfold groupByTag, mbind, M_bind. rewrite this_reminders_collection.
    by rewrite (forEach_groupByTag_callback rs JsObject.empty Hrs).
  - rewrite <- Hnames. apply keys_order.
Qed.

Lemma groupByTag_groups_witness :
  let rs := [ReminderClass.constructor "pay rent" "2";
             ReminderClass.constructor "write report" "Work";
             ReminderClass.constructor "buy milk" "1";
             ReminderClass.constructor "book room" "work";
             ReminderClass.constructor "send slides" "Work"] in
  ∃ g, groupByTag (collection rs []) = (Return g, collection rs [])
    ∧ (∀ t, JsObject.get_own t g
            = if decide (t ∈ _tag <$> rs) then Some (carrying t rs) else None)
    ∧ ∃ idx,
        JsObject.keys g
        = idx ++ filter (λ k, JsObject.array_index k = None)
                   (first_occurrences (_tag <$> rs))
        ∧ idx ≡ₚ filter (λ k, is_Some (JsObject.array_index k))
                   (first_occurrences (_tag <$> rs))
        ∧ StronglySorted index_ascending idx.
Proof.
  intros rs. apply (groupByTag_groups rs []).
  apply (bool_decide_unpack _). vm_compute. exact I.
Defined.

(** The grouping scenario of the specification: tags that differ only in
    case form separate groups. *)
Example groupByTag_case_sensitive :
  (groupByTag (collection [ReminderClass.constructor "write report" "Work";
                           ReminderClass.constructor "book room" "work";
                           ReminderClass.constructor "water plants" "Home";
                           ReminderClass.constructor "send slides" "Work"] [])).1
  = Return [("Work"%string, [ReminderClass.constructor "write report" "Work";
                             ReminderClass.constructor "send slides" "Work"]);
            ("work"%string, [ReminderClass.constructor "book room" "work"]);
            ("Home"%string, [ReminderClass.constructor "water plants" "Home"])].
Proof. reflexivity. Qed.

(** A tag that names a member of [Object.prototype] is found by [in], and
    the [push] on that member throws. *)
Example groupByTag_inherited_name_throws :
  groupByTag (collection [ReminderClass.constructor "call plumber" "constructor"] [])
  = (Throw TypeError,
     collection [ReminderClass.constructor "call plumber" "constructor"] []).
Proof. reflexivity. Qed.

(** * Further properties of the two classes *)

(** ** Reminder.ts *)

(** X1. [toggleCompletion] flips the completion flag and nothing else, so
    that toggling twice gives the reminder back as it was. *)
Theorem Reminder_toggleCompletion_involutive (r : Reminder) :
  (ReminderClass.toggleCompletion ;; ReminderClass.isCompleted) r
    = (Return (negb (_isCompleted r)),
       mkReminder (_description r) (_tag r) (negb (_isCompleted r)))
  ∧ (ReminderClass.toggleCompletion ;; ReminderClass.toggleCompletion) r
    = (Return tt, r).
Proof.
  unfold mbind, M_bind. rewrite Reminder_toggleCompletion_run. split.
  - reflexivity.
  - rewrite Reminder_toggleCompletion_run. cbn.
    rewrite negb_involutive. by destruct r.
Qed.

Lemma Reminder_setter_frame (r : Reminder) (v : string) :
  _tag (ReminderClass.set_description v r).2 = _tag r
  ∧ _isCompleted (ReminderClass.set_description v r).2 = _isCompleted r
  ∧ _description (ReminderClass.set_tag v r).2 = _description r
  ∧ _isCompleted (ReminderClass.set_tag v r).2 = _isCompleted r.
Proof.
  unfold ReminderClass.set_description, ReminderClass.set_tag.
  by destruct (decide (v = ""%string)).
Qed.

Lemma well_formed_kept (r : Reminder) (v : string) :
  well_formed r →
  well_formed (ReminderClass.set_description v r).2
  ∧ well_formed (ReminderClass.set_tag v r).2
  ∧ well_formed (ReminderClass.toggleCompletion r).2.
Proof.
  intros [Hd Ht]. rewrite Reminder_toggleCompletion_run.
  unfold ReminderClass.set_description, ReminderClass.set_tag.
  destruct (decide (v = ""%string)) as [Hv|Hv]; by repeat split.
Qed.

(** X2. No member of [Reminder] empties a field: a reminder whose
    description and tag are non-empty still has both non-empty after
    [set description], [set tag] or [toggleCompletion], whether the call
    returned or threw. *)
Theorem Reminder_members_keep_well_formed (r : Reminder) (v : string) :
  well_formed r →
  well_formed (ReminderClass.set_description v r).2
  ∧ well_formed (ReminderClass.set_tag v r).2
  ∧ well_formed (ReminderClass.toggleCompletion r).2.
Proof. apply well_formed_kept. Qed.

Lemma Reminder_members_keep_well_formed_witness :
  let r := ReminderClass.constructor "buy milk" "shopping" in
  well_formed (ReminderClass.set_description "" r).2
  ∧ well_formed (ReminderClass.set_tag "errand" r).2
  ∧ well_formed (ReminderClass.toggleCompletion r).2.
Proof.
  intros r.
  destruct (Reminder_members_keep_well_formed r "") as (Hd & _ & Hc);
    [by split|].
  destruct (Reminder_members_keep_well_formed r "errand") as (_ & Ht & _);
    [by split|].
  exact (conj Hd (conj Ht Hc)).
Defined.

(** ** RemindersHandler.ts: reading and changing one reminder *)

Lemma stored_position {A} (a : list A) (p : Z) :
  1 ≤ p ≤ Z.of_nat (length a) →
  ∃ x, a !! Z.to_nat (p - 1) = Some x ∧ array_get a (p - 1) = Some x.
Proof.
  intros Hp.
  destruct (lookup_lt_is_Some_2 a (Z.to_nat (p - 1))) as [x Hx]; [lia|].
  exists x. split; [done|]. apply array_get_Some. split; [lia|done].
Qed.

(** X3. [getReminder] as it is written: for [1 <= index < size()] it
    returns the reminder stored at offset [index - 1], and for
    [index < 0] or [index >= size()] it throws "This index is not valid";
    either way the collection is left as it was. *)
Theorem getReminder_bounds (rs : list Reminder) (out : list string) (p : Z) :
  (1 ≤ p < Z.of_nat (length rs) →
     ∃ r, rs !! Z.to_nat (p - 1) = Some r
          ∧ getReminder p (collection rs out)
            = (Return (Some r), collection rs out))
  ∧ (p < 0 ∨ Z.of_nat (length rs) ≤ p →
     getReminder p (collection rs out)
     = (Throw (JsError "This index is not valid"), collection rs out)).
Proof.
  rewrite getReminder_collection. split; intros Hp.
  - destruct (stored_position rs p) as (r & Hr & Hget); [lia|].
    exists r. split; [done|].
    rewrite bool_decide_eq_true_2 by lia. by rewrite Hget.
  - rewrite bool_decide_eq_false_2; [done | lia].
Qed.

Lemma getReminder_bounds_witness :
  let rs := [ReminderClass.constructor "buy milk" "shopping";
             ReminderClass.constructor "buy shoes" "errand"] in
  (∃ r, rs !! Z.to_nat (1 - 1) = Some r
        ∧ getReminder 1 (collection rs [])
          = (Return (Some r), collection rs []))
  ∧ getReminder 2 (collection rs [])
    = (Throw (JsError "This index is not valid"), collection rs []).
Proof.
  intros rs. split.
  - apply (getReminder_bounds rs [] 1). cbn. lia.
  - apply (getReminder_bounds rs [] 2). cbn. lia.
Defined.

Lemma modifyReminder_run (rs : list Reminder) (out : list string) (p : Z)
    (d : string) (r : Reminder) :
  array_get rs (p - 1) = Some r →
  d ≠ ""%string →
  modifyReminder p d (collection rs out)
  = (Return tt,
     collection
       (<[Z.to_nat (p - 1) := mkReminder d (_tag r) (_isCompleted r)]> rs)
       out).
Proof.
  intros Hget Hd.
  unfold modifyReminder. rewrite (on_element_defined _ _ _ _ r Hget).
  unfold ReminderClass.set_description.
  by destruct (decide (d = ""%string)).
Qed.

(** X4. [modifyReminder] at a stored position [1 <= index <= size()] with
    a non-empty description returns and replaces the description of the
    reminder at offset [index - 1]; its tag and completion flag, the other
    reminders and the size stay as they were. *)
Theorem modifyReminder_replaces_description (rs : list Reminder)
    (out : list string) (p : Z) (d : string) :
  1 ≤ p ≤ Z.of_nat (length rs) →
  d ≠ ""%string →
  ∃ r, rs !! Z.to_nat (p - 1) = Some r
       ∧ modifyReminder p d (collection rs out)
         = (Return tt,
            collection
              (<[Z.to_nat (p - 1) := mkReminder d (_tag r) (_isCompleted r)]> rs)
              out).
Proof.
  intros Hp Hd. destruct (stored_position rs p Hp) as (r & Hr & Hget).
  exists r. split; [done|]. by apply modifyReminder_run.
Qed.

Lemma modifyReminder_replaces_description_witness :
  let rs := [ReminderClass.constructor "buy milk" "shopping";
             ReminderClass.constructor "buy shoes" "errand"] in
  ∃ r, rs !! Z.to_nat (2 - 1) = Some r
       ∧ modifyReminder 2 "buy boots" (collection rs [])
         = (Return tt,
            collection
              (<[Z.to_nat (2 - 1)
                 := mkReminder "buy boots" (_tag r) (_isCompleted r)]> rs) []).
Proof.
  intros rs.
  apply (modifyReminder_replaces_description rs [] 2 "buy boots").
  - cbn. lia.
  - discriminate.
Defined.

(** X5. [modifyReminder] at a stored position with the empty description
    throws "Do not input an empty description" and changes nothing. *)
Theorem modifyReminder_empty_description (rs : list Reminder)
    (out : list string) (p : Z) :
  1 ≤ p ≤ Z.of_nat (length rs) →
  modifyReminder p "" (collection rs out)
  = (Throw (JsError "Do not input an empty description"), collection rs out).
Proof.
  intros Hp. destruct (stored_position rs p Hp) as (r & Hr & Hget).
  unfold modifyReminder. rewrite (on_element_defined _ _ _ _ r Hget).
  cbn. by rewrite list_insert_id.
Qed.

Lemma modifyReminder_empty_description_witness :
  modifyReminder 1 "" (collection [ReminderClass.constructor "buy milk" "shopping"] [])
  = (Throw (JsError "Do not input an empty description"),
     collection [ReminderClass.constructor "buy milk" "shopping"] []).
Proof.
  apply (modifyReminder_empty_description
           [ReminderClass.constructor "buy milk" "shopping"] [] 1).
  cbn. lia.
Defined.

(** X6. [modifyReminder] and [toggleCompletion] at a position outside
    [1 .. size()] do not ignore the call: both throw a [TypeError], and
    the collection is left as it was. *)
Theorem mutators_out_of_range (rs : list Reminder) (out : list string)
    (p : Z) (d : string) :
  p < 1 ∨ Z.of_nat (length rs) < p →
  modifyReminder p d (collection rs out) = (Throw TypeError, collection rs out)
  ∧ toggleCompletion p (collection rs out)
    = (Throw TypeError, collection rs out).
Proof.
  intros Hp. split; apply on_element_undefined, array_get_None; lia.
Qed.

Lemma mutators_out_of_range_witness :
  let w := collection [ReminderClass.constructor "buy milk" "shopping"] [] in
  modifyReminder 2 "buy oat milk" w = (Throw TypeError, w)
  ∧ toggleCompletion 2 w = (Throw TypeError, w).
Proof.
  intros w.
  apply (mutators_out_of_range
           [ReminderClass.constructor "buy milk" "shopping"] [] 2).
  cbn. lia.
Defined.

(** X7. [toggleCompletion] at a stored position flips the flag of the
    reminder at offset [index - 1] and nothing else, and a second call
    brings the collection back to what it was. *)
Theorem toggleCompletion_twice (rs : list Reminder) (out : list string)
    (p : Z) :
  1 ≤ p ≤ Z.of_nat (length rs) →
  (∃ r, rs !! Z.to_nat (p - 1) = Some r
        ∧ toggleCompletion p (collection rs out)
          = (Return tt,
             collection
               (<[Z.to_nat (p - 1)
                  := mkReminder (_description r) (_tag r)
                       (negb (_isCompleted r))]> rs) out))
  ∧ (toggleCompletion p ;; toggleCompletion p) (collection rs out)
    = (Return tt, collection rs out).
Proof.
  intros Hp. destruct (stored_position rs p Hp) as (r & Hr & Hget).
  assert (toggleCompletion p (collection rs out)
          = (Return tt,
             collection
               (<[Z.to_nat (p - 1)
                  := mkReminder (_description r) (_tag r)
                       (negb (_isCompleted r))]> rs) out)) as Hone.
  { unfold toggleCompletion. rewrite (on_element_defined _ _ _ _ r Hget).
    by rewrite Reminder_toggleCompletion_run. }
  split; [by exists r|].
  unfold mbind, M_bind. rewrite Hone.
  unfold toggleCompletion.
  rewrite (on_element_defined _ _ _ _
             (mkReminder (_description r) (_tag r) (negb (_isCompleted r)))).
  - rewrite Reminder_toggleCompletion_run. cbn [fst snd _description _tag
      _isCompleted]. rewrite negb_involutive, list_insert_insert_eq.
    rewrite list_insert_id; [done|]. by destruct r.
  - apply array_get_Some. split; [lia|].
    apply list_lookup_insert_eq. apply lookup_lt_Some in Hr. lia.
Qed.

Lemma toggleCompletion_twice_witness :
  let rs := [ReminderClass.constructor "buy milk" "shopping";
             ReminderClass.constructor "buy shoes" "errand"] in
  (∃ r, rs !! Z.to_nat (2 - 1) = Some r
        ∧ toggleCompletion 2 (collection rs [])
          = (Return tt,
             collection
               (<[Z.to_nat (2 - 1)
                  := mkReminder (_description r) (_tag r)
                       (negb (_isCompleted r))]> rs) []))
  ∧ (toggleCompletion 2 ;; toggleCompletion 2) (collection rs [])
    = (Return tt, collection rs []).
Proof.
  intros rs. apply (toggleCompletion_twice rs [] 2). cbn. lia.
Defined.

(** ** RemindersHandler.ts: what a sequence of calls does to the array *)

Section CallFacts.

Variable toLowerCase : string → string.
Variable FuzzySearch_search : list string → string → list string.

(** A member of [Reminder] run on a stored reminder either leaves the
    array alone or writes that one reminder back. *)
Lemma on_element_shape {A} (m : M Reminder A) rs out i :
  (on_element i m (collection rs out)).2 = collection rs out
  ∨ ∃ r, rs !! Z.to_nat i = Some r
         ∧ (on_element i m (collection rs out)).2
           = collection (<[Z.to_nat i := (m r).2]> rs) out.
Proof.
  destruct (array_get rs i) as [r|] eqn:Hget.
  - right. exists r. rewrite (on_element_defined _ _ _ _ r Hget).
    apply array_get_Some in Hget as [_ Hr]. by split.
  - left. by rewrite (on_element_undefined _ _ _ _ Hget).
Qed.

Lemma on_element_length {A} (m : M Reminder A) rs out i :
  ∃ rs', (on_element i m (collection rs out)).2 = collection rs' out
         ∧ length rs' = length rs
         ∧ ((∀ r, _tag (m r).2 = _tag r) → _tag <$> rs' = _tag <$> rs).
Proof.
  destruct (on_element_shape m rs out i) as [Hsame|(r & Hr & Hset)].
  - exists rs. by rewrite Hsame.
  - eexists. split; [exact Hset|]. split; [apply length_insert|].
    intros Htag. rewrite list_fmap_insert, Htag.
    apply list_insert_id. by rewrite list_lookup_fmap, Hr.
Qed.

(** One call: [addReminder] appends the reminder it makes, every other
    call keeps the length, and a member of the handler keeps the tags. *)
Lemma after_step (c : Call) rs out :
  ∃ rs' out',
    after toLowerCase FuzzySearch_search c (collection rs out)
    = collection rs' out'
    ∧ match c with
      | CallAddReminder d t => rs' = rs ++ [ReminderClass.constructor d t]
      | _ => length rs' = length rs
             ∧ (handler_member c = true → _tag <$> rs' = _tag <$> rs)
      end.
Proof.
  destruct c; cbn [after handler_member].
  - by exists rs, out.
  - rewrite addReminder_collection. by eexists _, _.
  - rewrite getReminder_collection. by exists rs, out.
  - rewrite isIndexValid_collection. by exists rs, out.
  - by exists rs, out.
  - destruct (on_element_length
                (ReminderClass.set_description description) rs out (index - 1))
      as (rs' & Hrs' & Hlen & Htags).
    exists rs', out. split; [done|]. split; [done|]. intros _.
    apply Htags. intros r. apply Reminder_setter_frame.
  - destruct (on_element_length ReminderClass.toggleCompletion rs out
                (index - 1)) as (rs' & Hrs' & Hlen & Htags).
    exists rs', out. split; [done|]. split; [done|]. intros _.
    apply Htags. intros r. by rewrite Reminder_toggleCompletion_run.
  - rewrite search_collection. destruct (filter _ rs).
    + rewrite searchDescriptions_collection. by eexists _, _.
    + by exists rs, out.
  - rewrite groupByTag_frame. by exists rs, out.
  - destruct (on_element_length
                (ReminderClass.set_description description) rs out
                (Z.of_nat offset)) as (rs' & Hrs' & Hlen & _).
    by exists rs', out.
  - destruct (on_element_length (ReminderClass.set_tag tag) rs out
                (Z.of_nat offset)) as (rs' & Hrs' & Hlen & _).
    by exists rs', out.
  - destruct (on_element_length ReminderClass.toggleCompletion rs out
                (Z.of_nat offset)) as (rs' & Hrs' & Hlen & _).
    by exists rs', out.
Qed.

Lemma run_snoc (calls : list Call) (c : Call) (w : World) :
  run toLowerCase FuzzySearch_search (calls ++ [c]) w
  = after toLowerCase FuzzySearch_search c
      (run toLowerCase FuzzySearch_search calls w).
Proof. unfold run. by rewrite foldl_app. Qed.

Lemma added_snoc (calls : list Call) (c : Call) :
  added (calls ++ [c])
  = added calls ++ match c with
                   | CallAddReminder d t => [(d, t)]
                   | _ => []
                   end.
Proof. unfold added. rewrite omap_app. by destruct c. Qed.

End CallFacts.

(** X8. Called on any collection, [addReminder] makes [size()] one
    larger; every other member of the handler, and every mutating member
    of a stored reminder, leaves [size()] as it is, whether the call
    returns or throws. *)
Theorem members_and_size (toLowerCase : string → string)
    (FuzzySearch_search : list string → string → list string)
    (c : Call) (rs : list Reminder) (out : list string) :
  (size (after toLowerCase FuzzySearch_search c (collection rs out))).1
  = Return match c with
           | CallAddReminder _ _ => Z.of_nat (length rs) + 1
           | _ => Z.of_nat (length rs)
           end.
Proof.
  destruct (after_step toLowerCase FuzzySearch_search c rs out)
    as (rs' & out' & -> & Hc).
  rewrite size_collection. cbn [fst]. f_equal.
  destruct c;
    first [ subst rs'; rewrite length_app; cbn; lia
          | destruct Hc as [Hl _]; by rewrite Hl ].
Qed.

(** X9. The members of the handler neither change nor reorder tags: after
    any sequence of them on a fresh handler, the tags of the stored
    reminders are the tags passed to [addReminder], in call order. *)
Theorem handler_members_keep_tags (toLowerCase : string → string)
    (FuzzySearch_search : list string → string → list string)
    (calls : list Call) :
  Forall (λ c, handler_member c = true) calls →
  ∃ rs, _reminders
          (handler (run toLowerCase FuzzySearch_search calls constructor))
        = Some rs
        ∧ _tag <$> rs = (added calls).*2.
Proof.
  intros Hcalls.
  assert (∃ rs out,
            run toLowerCase FuzzySearch_search calls constructor
            = collection rs out
            ∧ _tag <$> rs = (added calls).*2) as (rs & out & -> & Htags).
  { induction calls as [|c calls IH] using rev_ind.
    - by exists [], [].
    - apply Forall_app in Hcalls as [Hcalls Hc].
      rewrite Forall_singleton in Hc.
      destruct (IH Hcalls) as (rs & out & Hrun & Htags).
      rewrite run_snoc, Hrun, added_snoc, fmap_app, <- Htags.
      destruct (after_step toLowerCase FuzzySearch_search c rs out)
        as (rs' & out' & -> & Hstep).
      exists rs', out'. split; [done|].
      destruct c; cbn [handler_member] in Hc;
        first [ subst rs'; by rewrite fmap_app
              | discriminate Hc
              | destruct Hstep as [_ Ht]; rewrite (Ht Hc);
                by rewrite app_nil_r ]. }
  by exists rs.
Qed.

Lemma handler_members_keep_tags_witness :
  let calls := [CallAddReminder "buy milk" "shopping";
                CallModifyReminder 1 "buy oat milk";
                CallAddReminder "buy shoes" "errand";
                CallToggleCompletion 2;
                CallSearch "buy"] in
  ∃ rs, _reminders
          (handler (run ascii_toLowerCase substring_search calls constructor))
        = Some rs
        ∧ _tag <$> rs = (added calls).*2.
Proof.
  intros calls.
  apply (handler_members_keep_tags ascii_toLowerCase substring_search calls).
  repeat constructor.
Defined.

(** ** RemindersHandler.ts: more on search *)

(** X10. Searching twice for the same keyword with nothing in between
    gives the same answer twice, on every handler state. *)
Theorem search_idempotent (toLowerCase : string → string)
    (FuzzySearch_search : list string → string → list string)
    (keyword : string) (w : World) :
  (search toLowerCase FuzzySearch_search keyword
     (search toLowerCase FuzzySearch_search keyword w).2).1
  = (search toLowerCase FuzzySearch_search keyword w).1.
Proof.
  destruct (World_cases w) as [[rs ->]|Hnone].
  - rewrite search_collection.
    destruct (filter _ rs) as [|r found] eqn:Hfound.
    + rewrite searchDescriptions_collection. cbn [fst snd].
      rewrite search_collection, Hfound.
      by rewrite searchDescriptions_collection.
    + cbn [fst snd]. by rewrite search_collection, Hfound.
  - destruct w as [[f] out]. cbn in Hnone. by subst f.
Qed.

(** X11. [search] writes its notice exactly when it falls back: when some
    tag matches, the state after the call is the state before it; when
    none does, one line has been logged and nothing else has changed. *)
Theorem search_logs_only_on_fallback (toLowerCase : string → string)
    (FuzzySearch_search : list string → string → list string)
    (rs : list Reminder) (out : list string) (keyword : string) :
  let exact r := toLowerCase (_tag r) = toLowerCase keyword in
  let w' := (search toLowerCase FuzzySearch_search keyword
               (collection rs out)).2 in
  (Exists exact rs → w' = collection rs out)
  ∧ (¬ Exists exact rs →
     w' = collection rs
            (out ++ ["Could not find based on keyword, now searching based on description"%string])).
Proof.
  intros exact w'. subst w'. rewrite search_collection. fold exact.
  split; intros Hcase.
  - destruct (filter exact rs) as [|r l] eqn:Hf; [|done].
    apply Exists_exists in Hcase as (r & Hin & Hr).
    by destruct (filter_nil_not_elem_of exact rs r).
  - destruct (filter exact rs) as [|r l] eqn:Hf; [done|].
    destruct Hcase. apply Exists_exists. exists r.
    apply and_comm, (list_elem_of_filter exact). rewrite Hf. left.
Qed.

Lemma search_logs_only_on_fallback_witness :
  let rs := [ReminderClass.constructor "buy milk" "shopping";
             ReminderClass.constructor "buy shoes" "errand"] in
  (search ascii_toLowerCase substring_search "ERRAND" (collection rs [])).2
    = collection rs []
  ∧ (search ascii_toLowerCase substring_search "buy" (collection rs [])).2
    = collection rs
        ["Could not find based on keyword, now searching based on description"%string].
Proof.
  intros rs. split.
  - apply (search_logs_only_on_fallback ascii_toLowerCase substring_search
             rs [] "ERRAND").
    apply Exists_cons_tl, Exists_cons_hd. reflexivity.
  - apply (search_logs_only_on_fallback ascii_toLowerCase substring_search
             rs [] "buy").
    intros H. apply Exists_cons in H as [H|H]; [discriminate H|].
    apply Exists_cons in H as [H|H]; [discriminate H|].
    apply Exists_nil in H. exact H.
Defined.

(** ** RemindersHandler.ts: more on grouping *)

Section OwnPropertyFacts.

Context {V : Type}.
Implicit Types (o : JsObject.t V) (k : string).

Lemma get_own_absent o k : k ∉ o.*1 → JsObject.get_own k o = None.
Proof.
  induction o as [|[k' v] o IH]; [done|]. cbn.
  rewrite not_elem_of_cons. intros [Hne Hk].
  rewrite decide_False by done. by apply IH.
Qed.

Lemma get_own_elem_of o k (v : V) :
  NoDup o.*1 → (k, v) ∈ o → JsObject.get_own k o = Some v.
Proof.
  induction o as [|[k' v'] o IH]; intros Hnodup Hin.
  { by apply elem_of_nil in Hin. }
  cbn in Hnodup. apply NoDup_cons in Hnodup as [Hfresh Hnodup].
  apply elem_of_cons in Hin as [Heq|Hin]; cbn.
  - injection Heq as -> ->. by rewrite decide_True.
  - rewrite decide_False; [by apply IH|].
    intros ->. apply Hfresh.
    change k with (k, v).1. by apply list_elem_of_fmap_2.
Qed.

Lemma update_absent o k (f : V → V) : k ∉ o.*1 → JsObject.update k f o = o.
Proof.
  induction o as [|[k' v] o IH]; [done|]. cbn.
  rewrite not_elem_of_cons. intros [Hne Hk].
  rewrite decide_False by done. f_equal. by apply IH.
Qed.

End OwnPropertyFacts.

Lemma concat_push (o : RemindersGroupingByTag) (k : string) (r : Reminder) :
  NoDup o.*1 → k ∈ o.*1 →
  concat (JsObject.update k (λ g, g ++ [r]) o).*2 ≡ₚ concat o.*2 ++ [r].
Proof.
  induction o as [|[k' v] o IH]; intros Hnodup Hk.
  { by apply elem_of_nil in Hk. }
  cbn in Hnodup. apply NoDup_cons in Hnodup as [Hfresh Hnodup].
  change (JsObject.update k (λ g, g ++ [r]) ((k', v) :: o))
    with ((if decide (k' = k) then (k', v ++ [r]) else (k', v))
            :: JsObject.update k (λ g, g ++ [r]) o).
  destruct (decide (k' = k)) as [->|Hne].
  - rewrite update_absent by done. cbn.
    rewrite <- !(assoc_L (++)). f_equiv. apply Permutation_app_comm.
  - cbn in Hk. apply elem_of_cons in Hk as [->|Hk]; [done|].
    cbn. rewrite IH by done. by rewrite (assoc_L (++)).
Qed.

Lemma names_foldl_group_step (rs : list Reminder) :
  NoDup (foldl group_step JsObject.empty rs).*1.
Proof.
  destruct (foldl_group_step rs) as [-> _]. apply NoDup_first_occurrences.
Qed.

(** The groups built by the loop hold the reminders of [rs], each once. *)
Lemma concat_foldl_group_step (rs : list Reminder) :
  concat (foldl group_step JsObject.empty rs).*2 ≡ₚ rs.
Proof.
  induction rs as [|r rs IH] using rev_ind; [done|].
  rewrite foldl_app. cbn [foldl]. unfold group_step at 1.
  destruct (JsObject.get_own (_tag r) (foldl group_step JsObject.empty rs))
    as [g|] eqn:Hown.
  - rewrite concat_push, IH; [done|apply names_foldl_group_step|].
    destruct (decide (_tag r ∈ (foldl group_step JsObject.empty rs).*1))
      as [Hin|Hout]; [done|].
    by rewrite get_own_absent in Hown.
  - unfold JsObject.define. rewrite fmap_app, concat_app, IH. cbn.
    reflexivity.
Qed.

(** X12. When no tag is a name inherited from [Object.prototype], the
    groups returned by [groupByTag] split the collection: group names are
    pairwise distinct, no group is empty, every reminder of a group
    carries the name of the group as its tag, and taken together the
    groups hold the reminders of the collection, each as often as the
    collection does. *)
Theorem groupByTag_partitions (rs : list Reminder) (out : list string) :
  Forall (λ r, _tag r ∉ JsObject.Object_prototype_keys) rs →
  ∃ g, (groupByTag (collection rs out)).1 = Return g
    ∧ NoDup g.*1
    ∧ Forall (λ kv, kv.2 ≠ [] ∧ Forall (λ r, _tag r = kv.1) kv.2) g
    ∧ concat g.*2 ≡ₚ rs.
Proof.
  intros Hrs. exists (foldl group_step JsObject.empty rs).
  split; [|split; [apply names_foldl_group_step|split]].
  - unfold groupByTag, mbind, M_bind. rewrite this_reminders_collection.
    by rewrite (forEach_groupByTag_callback rs JsObject.empty Hrs).
  - apply Forall_forall. intros [k v] Hkv.
    apply get_own_elem_of in Hkv; [|apply names_foldl_group_step].
    destruct (foldl_group_step rs) as [_ Hown]. rewrite Hown in Hkv.
    destruct (decide (k ∈ _tag <$> rs)) as [Hk|Hk]; [|done].
    injection Hkv as <-. cbn. split.
    + apply list_elem_of_fmap in Hk as (r & -> & Hr).
      intros Hnil. eapply (filter_nil_not_elem_of _ _ r Hnil); done.
    + apply Forall_forall. intros r Hr.
      by apply list_elem_of_filter in Hr as [Hr _].
  - apply concat_foldl_group_step.
Qed.

Lemma groupByTag_partitions_witness :
  let rs := [ReminderClass.constructor "write report" "Work";
             ReminderClass.constructor "book room" "work";
             ReminderClass.constructor "send slides" "Work"] in
  ∃ g, (groupByTag (collection rs [])).1 = Return g
    ∧ NoDup g.*1
    ∧ Forall (λ kv, kv.2 ≠ [] ∧ Forall (λ r, _tag r = kv.1) kv.2) g
    ∧ concat g.*2 ≡ₚ rs.
Proof.
  intros rs. apply (groupByTag_partitions rs []).
  apply (bool_decide_unpack _). vm_compute. exact I.
Defined.

Lemma names_group_step (o : RemindersGroupingByTag) (r : Reminder) :
  (group_step o r).*1 ⊆ _tag r :: o.*1.
Proof.
  unfold group_step. destruct (JsObject.get_own (_tag r) o).
  - rewrite names_update. intros k Hk. by right.
  - rewrite names_define. intros k.
    rewrite elem_of_app, list_elem_of_singleton, elem_of_cons. tauto.
Qed.

(** From an object whose own names are not inherited names, the loop
    stops with a [TypeError] at the first tag that is one. *)
Lemma forEach_groupByTag_callback_throws (rs : list Reminder)
    (o : RemindersGroupingByTag) :
  Forall (λ k, k ∉ JsObject.Object_prototype_keys) o.*1 →
  Exists (λ r, _tag r ∈ JsObject.Object_prototype_keys) rs →
  (forEach groupByTag_callback rs o).1 = Throw TypeError.
Proof.
  intros Hnames Hbad. revert o Hnames.
  induction rs as [|r rs IH]; intros o Hnames.
  { by apply Exists_nil in Hbad. }
  cbn [forEach]. unfold mbind, M_bind.
  destruct (decide (_tag r ∈ JsObject.Object_prototype_keys)) as [Hr|Hr].
  - unfold groupByTag_callback, JsObject.has_property, mbind, M_bind,
      get_state.
    rewrite (bool_decide_eq_true_2 _ Hr), orb_true_r.
    rewrite get_own_absent; [done|].
    intros Hin. rewrite Forall_forall in Hnames. by apply (Hnames _ Hin).
  - rewrite (groupByTag_callback_run r o Hr).
    apply Exists_cons in Hbad as [Hbad|Hbad]; [done|].
    apply IH; [done|].
    apply Forall_forall. intros k Hk.
    apply names_group_step, elem_of_cons in Hk as [->|Hk]; [done|].
    rewrite Forall_forall in Hnames. by apply Hnames.
Qed.

(** X13. [groupByTag] throws a [TypeError] as soon as one stored reminder
    has a tag that names a member inherited from [Object.prototype]
    (["constructor"], ["toString"], ...), and leaves the collection as it
    was. *)
Theorem groupByTag_throws_on_inherited_name (rs : list Reminder)
    (out : list string) :
  Exists (λ r, _tag r ∈ JsObject.Object_prototype_keys) rs →
  groupByTag (collection rs out) = (Throw TypeError, collection rs out).
Proof.
  intros Hbad.
  pose proof (forEach_groupByTag_callback_throws rs JsObject.empty
                (Forall_nil_2 _) Hbad) as Hthrow.
  unfold groupByTag, mbind, M_bind. rewrite this_reminders_collection.
  destruct (forEach groupByTag_callback rs JsObject.empty) as [[u|e] g].
  - discriminate Hthrow.
  - cbn in Hthrow. by injection Hthrow as ->.
Qed.

Lemma groupByTag_throws_on_inherited_name_witness :
  let rs := [ReminderClass.constructor "buy milk" "shopping";
             ReminderClass.constructor "print thesis" "toString";
             ReminderClass.constructor "buy shoes" "errand"] in
  groupByTag (collection rs []) = (Throw TypeError, collection rs []).
Proof.
  intros rs. apply (groupByTag_throws_on_inherited_name rs []).
  apply Exists_cons_tl, Exists_cons_hd.
  apply (bool_decide_unpack _). vm_compute. exact I.
Defined.

(** ** RemindersHandler.ts: members and well-formed reminders *)

Lemma on_element_Forall {A} (P : Reminder → Prop) (m : M Reminder A)
    rs out i :
  (∀ r, P r → P (m r).2) → Forall P rs →
  ∃ rs', (on_element i m (collection rs out)).2 = collection rs' out
         ∧ Forall P rs'.
Proof.
  intros Hm Hrs.
  destruct (on_element_shape m rs out i) as [Hsame|(r & Hr & Hset)].
  - by exists rs.
  - eexists. split; [exact Hset|]. apply Forall_insert; [done|].
    apply Hm. rewrite Forall_forall in Hrs. apply Hrs.
    by apply list_elem_of_lookup_2 in Hr.
Qed.

Lemma after_well_formed (toLowerCase : string → string)
    (FuzzySearch_search : list string → string → list string)
    (c : Call) rs out :
  Forall well_formed rs →
  match c with
  | CallAddReminder d t => d ≠ ""%string ∧ t ≠ ""%string
  | _ => True
  end →
  ∃ rs' out',
    after toLowerCase FuzzySearch_search c (collection rs out)
    = collection rs' out'
    ∧ Forall well_formed rs'.
Proof.
  intros Hrs Hc.
  assert (∀ {A} (m : M Reminder A) i,
            (∀ r, well_formed r → well_formed (m r).2) →
            ∃ rs' out', (on_element i m (collection rs out)).2
                        = collection rs' out' ∧ Forall well_formed rs')
    as Hon.
  { intros A m i Hm.
    destruct (on_element_Forall well_formed m rs out i Hm Hrs)
      as (rs' & Hrs' & Hwf). by exists rs', out. }
  destruct c; cbn [after].
  - by exists rs, out.
  - rewrite addReminder_collection. eexists _, _. split; [done|].
    apply Forall_app. split; [done|]. by apply Forall_singleton.
  - rewrite getReminder_collection. by exists rs, out.
  - rewrite isIndexValid_collection. by exists rs, out.
  - by exists rs, out.
  - apply Hon. intros r Hr. by apply well_formed_kept.
  - apply Hon. intros r Hr. by apply (well_formed_kept r "").
  - rewrite search_collection. destruct (filter _ rs).
    + rewrite searchDescriptions_collection. by eexists _, _.
    + by exists rs, out.
  - rewrite groupByTag_frame. by exists rs, out.
  - apply Hon. intros r Hr. by apply well_formed_kept.
  - apply Hon. intros r Hr. by apply well_formed_kept.
  - apply Hon. intros r Hr. by apply (well_formed_kept r "").
Qed.

(** X14. Each member keeps stored reminders well formed: on a collection
    whose reminders all have a non-empty description and a non-empty tag,
    a call of a member of the handler or of a mutating member of a stored
    reminder leaves such a collection, whether it returns or throws,
    provided an [addReminder] call is given a non-empty description and
    tag.  [addReminder] itself checks nothing: given an empty description
    or tag it returns and stores the reminder as given. *)
Theorem members_keep_well_formed (toLowerCase : string → string)
    (FuzzySearch_search : list string → string → list string)
    (c : Call) (rs : list Reminder) (out : list string) :
  Forall well_formed rs →
  (match c with
   | CallAddReminder d t => d ≠ ""%string ∧ t ≠ ""%string
   | _ => True
   end →
   ∃ rs', _reminders
            (handler (after toLowerCase FuzzySearch_search c
                        (collection rs out)))
          = Some rs'
          ∧ Forall well_formed rs')
  ∧ (∀ d t, d = ""%string ∨ t = ""%string →
       addReminder d t (collection rs out)
       = (Return tt, collection (rs ++ [mkReminder d t false]) out)
       ∧ ¬ Forall well_formed (rs ++ [mkReminder d t false])).
Proof.
  intros Hrs. split.
  - intros Hc.
    destruct (after_well_formed toLowerCase FuzzySearch_search c rs out
                Hrs Hc) as (rs' & out' & -> & Hwf).
    by exists rs'.
  - intros d t Hempty. split; [reflexivity|].
    rewrite Forall_app, Forall_singleton. intros [_ [Hd Ht]].
    cbn in Hd, Ht. by destruct Hempty.
Qed.

Lemma members_keep_well_formed_witness :
  let rs := [ReminderClass.constructor "buy milk" "shopping"] in
  (∃ rs', _reminders
            (handler (after ascii_toLowerCase substring_search
                        (CallSetTag 0 "") (collection rs [])))
          = Some rs'
          ∧ Forall well_formed rs')
  ∧ addReminder "" "errand" (collection rs [])
    = (Return tt, collection (rs ++ [mkReminder "" "errand" false]) [])
  ∧ ¬ Forall well_formed (rs ++ [mkReminder "" "errand" false]).
Proof.
  intros rs.
  destruct (members_keep_well_formed ascii_toLowerCase substring_search
              (CallSetTag 0 "") rs []) as [Hkeep Hadd].
  - apply Forall_singleton. split; discriminate.
  - split; [by apply Hkeep|]. apply Hadd. by left.
Defined.

(** X15. What [modifyReminder] writes, [getReminder] reads back: at a
    position [1 <= index < size()], after [modifyReminder] with a
    non-empty description, [getReminder] at the same position returns a
    reminder with that description and with the tag and the completion
    flag it had before. *)
Theorem modifyReminder_then_getReminder (rs : list Reminder)
    (out : list string) (p : Z) (d : string) :
  1 ≤ p < Z.of_nat (length rs) →
  d ≠ ""%string →
  ∃ r, rs !! Z.to_nat (p - 1) = Some r
       ∧ ((modifyReminder p d ;; getReminder p) (collection rs out)).1
         = Return (Some (mkReminder d (_tag r) (_isCompleted r))).
Proof.
  intros Hp Hd.
  destruct (stored_position rs p) as (r & Hr & Hget); [lia|].
  exists r. split; [done|].
  unfold mbind, M_bind. rewrite (modifyReminder_run rs out p d r Hget Hd).
  rewrite getReminder_collection, length_insert.
  rewrite bool_decide_eq_true_2 by lia. cbn [fst]. f_equal.
  apply array_get_Some. split; [lia|].
  apply list_lookup_insert_eq. apply lookup_lt_Some in Hr. lia.
Qed.

Lemma modifyReminder_then_getReminder_witness :
  let rs := [ReminderClass.constructor "buy milk" "shopping";
             ReminderClass.constructor "buy shoes" "errand"] in
  ∃ r, rs !! Z.to_nat (1 - 1) = Some r
       ∧ ((modifyReminder 1 "buy oat milk" ;; getReminder 1)
            (collection rs [])).1
         = Return (Some (mkReminder "buy oat milk" (_tag r) (_isCompleted r))).
Proof.
  intros rs. apply (modifyReminder_then_getReminder rs [] 1 "buy oat milk").
  - cbn. lia.
  - discriminate.
Defined.
